(** * CarViewer: the per-frame wheel-orientation model

    A shallow embedding of the animation block of
    [src/app/components/CarViewer.tsx]: the GLTF load callback that collects
    the wheel nodes, the key handlers, and the [animate] frame function
    (steering update, roll accumulation, quaternion composition per wheel).

    JavaScript numbers are modelled as real numbers ([R]): [Math.min],
    [Math.max] and [Math.abs] are [Rmin], [Rmax] and [Rabs], [Math.PI] is
    [PI], and [Math.sin]/[Math.cos] are [sin]/[cos].  Rounding, NaN and
    infinities of IEEE doubles are outside the model; the theorems state
    branch results of one update, bounds, composition order, what is
    written where, and values the clamp or the snap to 0 fixes, none of
    which rests on several arithmetic steps being exact. *)

From Stdlib Require Import Reals Lra Lia Ascii String.
From stdpp Require Import gmap strings list.

Local Open Scope R_scope.

(** ** The part of three.js the component calls

    [THREE.Euler], [THREE.Vector3] and [THREE.Quaternion] with the three
    methods used by [animate]: [setFromEuler], [setFromAxisAngle] and
    [multiply].  The formulas are those of three.js ([math/Quaternion.js]). *)
Module THREE.

Inductive EulerOrder := XYZ | YXZ | ZXY | ZYX | YZX | XZY.

Record Euler := mkEuler { e_x : R; e_y : R; e_z : R; e_order : EulerOrder }.

Record Vector3 := mkVector3 { v_x : R; v_y : R; v_z : R }.

Record Quaternion := mkQuaternion { q_x : R; q_y : R; q_z : R; q_w : R }.

(** [new THREE.Quaternion()] *)
Definition identity : Quaternion := mkQuaternion 0 0 0 1.

(** [q.setFromEuler(euler)] *)
Definition setFromEuler (euler : Euler) : Quaternion :=
  let c1 := cos (e_x euler / 2) in
  let c2 := cos (e_y euler / 2) in
  let c3 := cos (e_z euler / 2) in
  let s1 := sin (e_x euler / 2) in
  let s2 := sin (e_y euler / 2) in
  let s3 := sin (e_z euler / 2) in
  match e_order euler with
  | XYZ => mkQuaternion (s1 * c2 * c3 + c1 * s2 * s3) (c1 * s2 * c3 - s1 * c2 * s3)
                        (c1 * c2 * s3 + s1 * s2 * c3) (c1 * c2 * c3 - s1 * s2 * s3)
  | YXZ => mkQuaternion (s1 * c2 * c3 + c1 * s2 * s3) (c1 * s2 * c3 - s1 * c2 * s3)
                        (c1 * c2 * s3 - s1 * s2 * c3) (c1 * c2 * c3 + s1 * s2 * s3)
  | ZXY => mkQuaternion (s1 * c2 * c3 - c1 * s2 * s3) (c1 * s2 * c3 + s1 * c2 * s3)
                        (c1 * c2 * s3 + s1 * s2 * c3) (c1 * c2 * c3 - s1 * s2 * s3)
  | ZYX => mkQuaternion (s1 * c2 * c3 - c1 * s2 * s3) (c1 * s2 * c3 + s1 * c2 * s3)
                        (c1 * c2 * s3 - s1 * s2 * c3) (c1 * c2 * c3 + s1 * s2 * s3)
  | YZX => mkQuaternion (s1 * c2 * c3 + c1 * s2 * s3) (c1 * s2 * c3 + s1 * c2 * s3)
                        (c1 * c2 * s3 - s1 * s2 * c3) (c1 * c2 * c3 - s1 * s2 * s3)
  | XZY => mkQuaternion (s1 * c2 * c3 - c1 * s2 * s3) (c1 * s2 * c3 - s1 * c2 * s3)
                        (c1 * c2 * s3 + s1 * s2 * c3) (c1 * c2 * c3 + s1 * s2 * s3)
  end.

(** [q.setFromAxisAngle(axis, angle)] *)
Definition setFromAxisAngle (axis : Vector3) (angle : R) : Quaternion :=
  let halfAngle := angle / 2 in
  let s := sin halfAngle in
  mkQuaternion (v_x axis * s) (v_y axis * s) (v_z axis * s) (cos halfAngle).

(** [a.multiply(b)]: the Hamilton product [a * b], stored in [a]. *)
Definition multiply (a b : Quaternion) : Quaternion :=
  mkQuaternion
    (q_x a * q_w b + q_w a * q_x b + q_y a * q_z b - q_z a * q_y b)
    (q_y a * q_w b + q_w a * q_y b + q_z a * q_x b - q_x a * q_z b)
    (q_z a * q_w b + q_w a * q_z b + q_x a * q_y b - q_y a * q_x b)
    (q_w a * q_w b - q_x a * q_x b - q_y a * q_y b - q_z a * q_z b).

(** A scene node as far as the animation reads or writes it: [name],
    [quaternion] and [userData.initialRotation] ([None] while the property
    is unset).  The Euler view [rotation] of a node is read once, by the
    load callback; its value then comes with the parsed model. *)
Record Object3D := mkObject3D {
  name : string;
  quaternion : Quaternion;
  initialRotation : option Euler;
}.

End THREE.
Import THREE.

(** ** Strings *)

(** [String.prototype.toLowerCase] on the ASCII letters; the four key names
    the handler compares with are ASCII, and no other character lowers to
    one of theirs. *)
Definition toLowerAscii (c : ascii) : ascii :=
  let n := nat_of_ascii c in
  if Nat.leb 65 n && Nat.leb n 90 then ascii_of_nat (n + 32) else c.

Fixpoint toLowerCase (s : string) : string :=
  match s with
  | EmptyString => EmptyString
  | String c s' => String (toLowerAscii c) (toLowerCase s')
  end.

(** [s.startsWith(p)] *)
Definition startsWith (s p : string) : bool := String.prefix p s.

(** ** Component state *)

(** The debug panel's axis type ['x' | 'y' | 'z']. *)
Inductive Axis := AxisX | AxisY | AxisZ.

Definition Axis_eqb (a b : Axis) : bool :=
  match a, b with
  | AxisX, AxisX | AxisY, AxisY | AxisZ, AxisZ => true
  | _, _ => false
  end.

(** The React state captured by the effect closure. *)
Record Config := mkConfig {
  steeringAxis : Axis;
  rotationAxis : Axis;
  manualSteeringAngle : R;
  manualRotationSpeed : R;
}.

(** The initial [useState] values. *)
Definition defaultConfig : Config := mkConfig AxisY AxisX 0 0.05.

(** The range of the "Drehgeschwindigkeit" slider: min 0, max 0.2. *)
Definition admissibleRotationSpeed (s : R) : Prop := 0 <= s <= 0.2.

(** The refs of the component together with the scene nodes they point
    into.  [nodes] is the store of scene objects; [wheelsRef] holds
    references (positions in [nodes]) to the collected wheel groups, so a
    write through a wheel reference is a write to the scene node itself. *)
Record State := mkState {
  nodes : list Object3D;
  wheelsRef : list nat;
  steeringAngleRef : R;
  keysPressed : gset string;
  wheelRotationRef : R;
}.

(** The refs as [useRef] initialises them, before any model is loaded. *)
Definition initialState : State := mkState [] [] 0 ∅ 0.

(** How a frame ends: normally, or with the [TypeError] that
    [setFromEuler(undefined)] throws. *)
Inductive Completion := Normal | Thrown.

(** [keysPressed.current.has(k)] *)
Definition has (k : string) (keys : gset string) : bool := bool_decide (k ∈ keys).

(** ** The GLTF load callback (lines 139-206) *)

(** The [model.traverse] callback on one node, as far as the wheels go:
    a node whose name starts with ["wheel_"] is pushed onto [wheelsRef], and
    its rotation is cloned into [userData.initialRotation] unless that is
    already set.  [i] is the node's reference and [rotation] the value of
    [child.rotation]. *)
Definition collectWheel (i : nat) (child : Object3D) (rotation : Euler)
  (wheels : list nat) : Object3D * list nat :=
  if startsWith (name child) "wheel_" then
    (match initialRotation child with
     | Some _ => child
     | None => mkObject3D (name child) (quaternion child) (Some rotation)
     end, wheels ++ [i])
  else (child, wheels).

(** [model.traverse] over the nodes of the model, listed in visiting order,
    each with its [rotation]. *)
Fixpoint traverse (i : nat) (children : list (Object3D * Euler)) (wheels : list nat)
  : list Object3D * list nat :=
  match children with
  | [] => ([], wheels)
  | (child, rotation) :: rest =>
      let (child', wheels') := collectWheel i child rotation wheels in
      let (rest', wheels'') := traverse (S i) rest wheels' in
      (child' :: rest', wheels'')
  end.

(** The success callback of [loader.load]: [wheelsRef] is cleared, then
    filled by the traversal of the freshly parsed model. *)
Definition onLoad (model : list (Object3D * Euler)) (st : State) : State :=
  let (nodes', wheels) := traverse 0 model [] in
  mkState nodes' wheels (steeringAngleRef st) (keysPressed st) (wheelRotationRef st).

(** ** The key handlers (lines 301-311) *)

Definition handleKeyDown (e_key : string) (st : State) : State :=
  let key := toLowerCase e_key in
  if String.eqb key "arrowleft" || String.eqb key "a"
     || String.eqb key "arrowright" || String.eqb key "d"
  then mkState (nodes st) (wheelsRef st) (steeringAngleRef st)
               ({[key]} ∪ keysPressed st) (wheelRotationRef st)
  else st.

Definition handleKeyUp (e_key : string) (st : State) : State :=
  let key := toLowerCase e_key in
  mkState (nodes st) (wheelsRef st) (steeringAngleRef st)
          (keysPressed st ∖ {[key]}) (wheelRotationRef st).

(** ** The animation loop (lines 215-287) *)

Definition maxSteeringAngle : R := PI / 4.
Definition steeringSpeed : R := 0.05.

(** Lines 227-232: "Return to center when no keys pressed". *)
Definition returnToCenter (angle : R) : R :=
  if Rgt_dec (Rabs angle) 0.01 then angle * 0.9 else 0.

(** Lines 222-233: the steering angle after this frame. *)
Definition updateSteeringAngle (keys : gset string) (angle : R) : R :=
  if has "ArrowLeft" keys || has "a" keys then
    Rmin (angle + steeringSpeed) maxSteeringAngle
  else if has "ArrowRight" keys || has "d" keys then
    Rmax (angle - steeringSpeed) (- maxSteeringAngle)
  else returnToCenter angle.

Definition isFrontWheel (n : string) : bool :=
  String.eqb n "wheel_front_left" || String.eqb n "wheel_front_right".

Definition isRightWheel (n : string) : bool :=
  String.eqb n "wheel_front_right" || String.eqb n "wheel_rear_right".

(** [new THREE.Vector3(axis === 'x' ? 1 : 0, axis === 'y' ? 1 : 0, axis === 'z' ? 1 : 0)] *)
Definition axisVec (axis : Axis) : Vector3 :=
  mkVector3 (if Axis_eqb axis AxisX then 1 else 0)
            (if Axis_eqb axis AxisY then 1 else 0)
            (if Axis_eqb axis AxisZ then 1 else 0).

(** Lines 250-255, inside the front-wheel branch. *)
Definition finalSteeringAngle (cfg : Config) (steering : R) (n : string) : R :=
  let a := steering + manualSteeringAngle cfg in
  if isRightWheel n then - a else a.

(** Lines 257-266. *)
Definition steeringQ (cfg : Config) (steering : R) (n : string) : Quaternion :=
  setFromAxisAngle (axisVec (steeringAxis cfg)) (finalSteeringAngle cfg steering n).

(** Lines 245-268: [q] when the rolling rotation is about to be applied. *)
Definition steeredQ (cfg : Config) (steering : R) (n : string) (initial : Euler)
  : Quaternion :=
  let q := setFromEuler initial in
  if isFrontWheel n then multiply q (steeringQ cfg steering n) else q.

(** Lines 271-278. *)
Definition rotationQ (cfg : Config) (roll : R) : Quaternion :=
  setFromAxisAngle (axisVec (rotationAxis cfg)) roll.

(** Lines 245-279: the final [q] of one wheel. *)
Definition wheelQuaternion (cfg : Config) (steering roll : R) (n : string)
  (initial : Euler) : Quaternion :=
  multiply (steeredQ cfg steering n initial) (rotationQ cfg roll).

(** [wheel.quaternion.copy(q)] *)
Definition copyQuaternion (wheel : Object3D) (q : Quaternion) : Object3D :=
  mkObject3D (name wheel) q (initialRotation wheel).

(** Lines 239-283: [wheelsRef.current.forEach].  A reference outside the
    store does not occur in JavaScript; an unset [initialRotation] makes
    [setFromEuler] throw, which leaves the loop. *)
Fixpoint forEachWheel (cfg : Config) (steering roll : R) (wheels : list nat)
  (store : list Object3D) : list Object3D * Completion :=
  match wheels with
  | [] => (store, Normal)
  | i :: wheels' =>
      match store !! i with
      | Some wheel =>
          match initialRotation wheel with
          | Some initial =>
              let q := wheelQuaternion cfg steering roll (name wheel) initial in
              forEachWheel cfg steering roll wheels'
                (<[i := copyQuaternion wheel q]> store)
          | None => (store, Thrown)
          end
      | None => (store, Thrown)
      end
  end.

(** One call of [animate]: the state it leaves and how it ended. *)
Definition animate (cfg : Config) (st : State) : State * Completion :=
  let steering := updateSteeringAngle (keysPressed st) (steeringAngleRef st) in
  let roll := wheelRotationRef st + manualRotationSpeed cfg in
  let (store, c) := forEachWheel cfg steering roll (wheelsRef st) (nodes st) in
  (mkState store (wheelsRef st) steering (keysPressed st) roll, c).

(** ** Runs of the component *)

(** What the host delivers to the component; a frame is rendered under
    the configuration its effect closure captured. *)
Inductive Event :=
| Loaded (model : list (Object3D * Euler))
| KeyDown (key : string)
| KeyUp (key : string)
| Frame (cfg : Config).

Definition step (st : State) (ev : Event) : State :=
  match ev with
  | Loaded model => onLoad model st
  | KeyDown key => handleKeyDown key st
  | KeyUp key => handleKeyUp key st
  | Frame cfg => fst (animate cfg st)
  end.

Definition run (evs : list Event) (st : State) : State := fold_left step evs st.

Definition isLoaded (ev : Event) : bool :=
  match ev with Loaded _ => true | _ => false end.

(** A frame rendered while the set [held] of key names is recorded as held. *)
Definition frameHolding (st : State) (input : Config * gset string) : State :=
  fst (animate (fst input)
         (mkState (nodes st) (wheelsRef st) (steeringAngleRef st) (snd input)
                  (wheelRotationRef st))).

(** A sequence of frames, one configuration and held-key set per frame. *)
Definition frames (inputs : list (Config * gset string)) (st : State) : State :=
  fold_left frameHolding inputs st.

(** What the two branches of the steering update test. *)
Definition steerLeftHeld (keys : gset string) : bool :=
  has "ArrowLeft" keys || has "a" keys.

Definition steerRightHeld (keys : gset string) : bool :=
  has "ArrowRight" keys || has "d" keys.

(** Every collected wheel is a node of the store with its rest rotation
    captured. *)
Definition wheelsCaptured (st : State) : Prop :=
  Forall (fun i => exists wheel initial,
            nodes st !! i = Some wheel /\ initialRotation wheel = Some initial)
         (wheelsRef st).

(** Two stores that agree on the name and the rest rotation of every
    node; the quaternions the nodes currently carry may differ. *)
Definition sameRest (store1 store2 : list Object3D) : Prop :=
  Forall2 (fun a b => name a = name b /\ initialRotation a = initialRotation b)
          store1 store2.

(** The four names lines 241-242 compare with. *)
Definition namedWheel (n : string) : bool :=
  String.eqb n "wheel_front_left" || String.eqb n "wheel_front_right"
  || String.eqb n "wheel_rear_left" || String.eqb n "wheel_rear_right".

(** ** Example scenes *)

Definition restPose : Euler := mkEuler 0 0 0 XYZ.

(** A car body with the four wheels of the naming convention. *)
Definition exampleModel : list (Object3D * Euler) :=
  [ (mkObject3D "body" identity None, restPose);
    (mkObject3D "wheel_front_left" identity None, restPose);
    (mkObject3D "wheel_front_right" identity None, restPose);
    (mkObject3D "wheel_rear_left" identity None, restPose);
    (mkObject3D "wheel_rear_right" identity None, restPose) ].

(** A model with a fifth wheel-prefixed node. *)
Definition spareModel : list (Object3D * Euler) :=
  [ (mkObject3D "wheel_spare" identity None, restPose) ].

(** ** Tests used to state properties of runs *)

(** The four names the key-down handler accepts (line 303). *)
Definition steeringKeys : gset string := {["arrowleft"; "a"; "arrowright"; "d"]}.

(** Whether the [i]-th node a traversal visits carries the wheel prefix. *)
Definition prefixedAt (model : list (Object3D * Euler)) (i : nat) : bool :=
  match model !! i with
  | Some (child, _) => startsWith (name child) "wheel_"
  | None => false
  end.

(** ** Steering: the scalar part of a frame *)

Lemma Rabs_bound (a b : R) : Rabs a <= b <-> - b <= a <= b.
Proof. unfold Rabs. destruct (Rcase_abs a); lra. Qed.

Lemma steeringSpeed_lt_max : steeringSpeed < maxSteeringAngle.
Proof.
  unfold steeringSpeed, maxSteeringAngle.
  pose proof PI2_3_2. lra.
Qed.

(** The scalar fields of the state a frame leaves do not depend on how the
    wheel loop went. *)
Ltac animate_field :=
  unfold animate; destruct (forEachWheel _ _ _ _ _); reflexivity.

Lemma animate_steeringAngleRef cfg st :
  steeringAngleRef (fst (animate cfg st))
  = updateSteeringAngle (keysPressed st) (steeringAngleRef st).
Proof. animate_field. Qed.

Lemma animate_wheelRotationRef cfg st :
  wheelRotationRef (fst (animate cfg st))
  = wheelRotationRef st + manualRotationSpeed cfg.
Proof. animate_field. Qed.

Lemma animate_wheelsRef cfg st : wheelsRef (fst (animate cfg st)) = wheelsRef st.
Proof. animate_field. Qed.

Lemma animate_keysPressed cfg st : keysPressed (fst (animate cfg st)) = keysPressed st.
Proof. animate_field. Qed.

Lemma updateSteeringAngle_bound keys a :
  Rabs a <= maxSteeringAngle -> Rabs (updateSteeringAngle keys a) <= maxSteeringAngle.
Proof.
  intros Ha. pose proof steeringSpeed_lt_max as Hs.
  assert (0 < steeringSpeed) by (unfold steeringSpeed; lra).
  apply Rabs_bound in Ha. apply Rabs_bound.
  unfold updateSteeringAngle.
  destruct (has "ArrowLeft" keys || has "a" keys).
  - unfold Rmin. destruct (Rle_dec _ _); lra.
  - destruct (has "ArrowRight" keys || has "d" keys).
    + unfold Rmax. destruct (Rle_dec _ _); lra.
    + unfold returnToCenter. destruct (Rgt_dec _ _); lra.
Qed.

Lemma frames_steering_bound inputs st :
  Rabs (steeringAngleRef st) <= maxSteeringAngle ->
  Rabs (steeringAngleRef (frames inputs st)) <= maxSteeringAngle.
Proof.
  revert st. induction inputs as [|input inputs IH]; intros st Hst; [exact Hst|].
  cbn. apply IH. unfold frameHolding.
  rewrite animate_steeringAngleRef. cbn. now apply updateSteeringAngle_bound.
Qed.

(** C2: whatever key names are recorded as held on each frame, and whatever
    the configuration, after any number of frames started with the steering
    angle at 0 the angle lies within [-PI/4, PI/4]. *)
Theorem steering_angle_clamped
  (inputs : list (Config * gset string)) (store : list Object3D)
  (wheels : list nat) (keys : gset string) (roll : R) :
  Rabs (steeringAngleRef (frames inputs (mkState store wheels 0 keys roll))) <= PI / 4.
Proof.
  apply frames_steering_bound. cbn. rewrite Rabs_R0.
  pose proof steeringSpeed_lt_max. unfold steeringSpeed in *. lra.
Qed.

Lemma updateSteeringAngle_left keys a :
  steerLeftHeld keys = true ->
  updateSteeringAngle keys a = Rmin (a + steeringSpeed) maxSteeringAngle.
Proof. unfold steerLeftHeld, updateSteeringAngle. now intros ->. Qed.

Lemma updateSteeringAngle_right keys a :
  steerLeftHeld keys = false -> steerRightHeld keys = true ->
  updateSteeringAngle keys a = Rmax (a - steeringSpeed) (- maxSteeringAngle).
Proof. unfold steerLeftHeld, steerRightHeld, updateSteeringAngle. now intros -> ->. Qed.

Lemma updateSteeringAngle_none keys a :
  steerLeftHeld keys = false -> steerRightHeld keys = false ->
  updateSteeringAngle keys a = returnToCenter a.
Proof. unfold steerLeftHeld, steerRightHeld, updateSteeringAngle. now intros -> ->. Qed.

Lemma keys_a_then_d :
  keysPressed (run [KeyDown "a"; KeyDown "d"] initialState)
  = {["d"]} ∪ ({["a"]} ∪ ∅).
Proof. reflexivity. Qed.

(** C3, as stated, fails: with both [a] and [d] recorded as held, a frame
    at angle 0 takes the steer-left branch and yields 0.05, where the decay
    branch would yield 0. *)
Lemma both_directions_held_steers_left :
  steerLeftHeld (keysPressed (run [KeyDown "a"; KeyDown "d"] initialState)) = true
  /\ steerRightHeld (keysPressed (run [KeyDown "a"; KeyDown "d"] initialState)) = true
  /\ updateSteeringAngle (keysPressed (run [KeyDown "a"; KeyDown "d"] initialState)) 0
     = 0.05
  /\ returnToCenter 0 = 0
  /\ updateSteeringAngle (keysPressed (run [KeyDown "a"; KeyDown "d"] initialState)) 0
     <> returnToCenter 0.
Proof.
  rewrite keys_a_then_d.
  assert (Hl : steerLeftHeld ({["d"]} ∪ ({["a"]} ∪ ∅)) = true) by (vm_compute; reflexivity).
  assert (Hr : steerRightHeld ({["d"]} ∪ ({["a"]} ∪ ∅)) = true) by (vm_compute; reflexivity).
  assert (Hu : updateSteeringAngle ({["d"]} ∪ ({["a"]} ∪ ∅)) 0 = 0.05).
  { rewrite (updateSteeringAngle_left _ _ Hl).
    pose proof steeringSpeed_lt_max as Hs. unfold steeringSpeed in *.
    rewrite Rmin_left; lra. }
  assert (Hc : returnToCenter 0 = 0).
  { unfold returnToCenter. rewrite Rabs_R0. destruct (Rgt_dec 0 0.01); lra. }
  repeat split; try assumption.
  rewrite Hu, Hc. lra.
Qed.

(** C3, amended: when neither branch test of the steering update sees a
    held key, the update is the decay ([prev * 0.9] while [|prev| > 0.01],
    else exactly 0); when both tests see one, the update is the steer-left
    branch [min (prev + 0.05) (PI / 4)]. *)
Theorem steering_update_without_net_input (keys : gset string) (prev : R) :
  (steerLeftHeld keys = false /\ steerRightHeld keys = false ->
     (Rabs prev > 0.01 -> updateSteeringAngle keys prev = prev * 0.9)
     /\ (Rabs prev <= 0.01 -> updateSteeringAngle keys prev = 0))
  /\ (steerLeftHeld keys = true /\ steerRightHeld keys = true ->
       updateSteeringAngle keys prev = Rmin (prev + 0.05) (PI / 4)).
Proof.
  split.
  - intros [Hl Hr]. rewrite (updateSteeringAngle_none _ _ Hl Hr).
    unfold returnToCenter. destruct (Rgt_dec (Rabs prev) 0.01); split; intros; lra.
  - intros [Hl _]. now rewrite (updateSteeringAngle_left _ _ Hl).
Qed.

Lemma steering_update_without_net_input_witness :
  updateSteeringAngle ∅ 0.5 = 0.5 * 0.9
  /\ updateSteeringAngle ({["d"]} ∪ ({["a"]} ∪ ∅)) 0 = Rmin (0 + 0.05) (PI / 4).
Proof.
  split.
  - apply (proj1 (steering_update_without_net_input ∅ 0.5)).
    + split; vm_compute; reflexivity.
    + unfold Rabs. destruct (Rcase_abs 0.5); lra.
  - apply (proj2 (steering_update_without_net_input ({["d"]} ∪ ({["a"]} ∪ ∅)) 0)).
    split; vm_compute; reflexivity.
Defined.

(** *** Return to centre *)

Lemma returnToCenter_small a : Rabs a <= 0.01 -> returnToCenter a = 0.
Proof. intros Ha. unfold returnToCenter. destruct (Rgt_dec (Rabs a) 0.01); lra. Qed.

Lemma returnToCenter_0 : returnToCenter 0 = 0.
Proof. apply returnToCenter_small. rewrite Rabs_R0. lra. Qed.

Lemma returnToCenter_iter_0 n : Nat.iter n returnToCenter 0 = 0.
Proof.
  induction n as [|n IH]; [reflexivity|].
  rewrite Nat.iter_succ, IH. apply returnToCenter_0.
Qed.

(** Until it is snapped to 0, the decayed angle is the geometric sequence. *)
Lemma returnToCenter_iter n a :
  Nat.iter n returnToCenter a = 0 \/ Nat.iter n returnToCenter a = 0.9 ^ n * a.
Proof.
  induction n as [|n [IH|IH]].
  - right. cbn. lra.
  - left. rewrite Nat.iter_succ, IH. apply returnToCenter_0.
  - rewrite Nat.iter_succ, IH. unfold returnToCenter.
    destruct (Rgt_dec _ _); [right; cbn [pow]; lra | now left].
Qed.


Lemma frames_without_input inputs st :
  Forall (fun input : Config * gset string =>
            steerLeftHeld (snd input) = false /\ steerRightHeld (snd input) = false)
         inputs ->
  steeringAngleRef (frames inputs st)
  = Nat.iter (length inputs) returnToCenter (steeringAngleRef st).
Proof.
  intros H. revert st. induction H as [|input inputs [Hl Hr] _ IH]; intros st.
  - reflexivity.
  - cbn [frames fold_left length]. fold (frames inputs (frameHolding st input)).
    rewrite IH, Nat.iter_succ_r. f_equal.
    unfold frameHolding. rewrite animate_steeringAngleRef. cbn.
    now apply updateSteeringAngle_none.
Qed.

Lemma returnToCenter_after_threshold n0 a :
  Rabs (0.9 ^ n0 * a) <= 0.01 ->
  Rabs (Nat.iter n0 returnToCenter a) <= 0.01
  /\ forall n, (n0 < n)%nat -> Nat.iter n returnToCenter a = 0.
Proof.
  intros Hn0.
  assert (Hsmall : Rabs (Nat.iter n0 returnToCenter a) <= 0.01).
  { destruct (returnToCenter_iter n0 a) as [-> | ->];
      [rewrite Rabs_R0; lra | exact Hn0]. }
  split; [exact Hsmall|]. intros n Hn.
  replace n with ((n - S n0) + S n0)%nat by lia.
  rewrite Nat.iter_add, Nat.iter_succ, (returnToCenter_small _ Hsmall).
  apply returnToCenter_iter_0.
Qed.






(** *** Arrow keys *)

Lemma keyDown_ArrowLeft :
  handleKeyDown "ArrowLeft" initialState = mkState [] [] 0 ({["arrowleft"]} ∪ ∅) 0.
Proof. reflexivity. Qed.

Lemma keyDown_ArrowRight :
  handleKeyDown "ArrowRight" initialState = mkState [] [] 0 ({["arrowright"]} ∪ ∅) 0.
Proof. reflexivity. Qed.

Lemma keyDown_a :
  handleKeyDown "a" initialState = mkState [] [] 0 ({["a"]} ∪ ∅) 0.
Proof. reflexivity. Qed.

Lemma keyDown_d :
  handleKeyDown "d" initialState = mkState [] [] 0 ({["d"]} ∪ ∅) 0.
Proof. reflexivity. Qed.

(** C8 fails on the code: the key-down handler records the lower-cased name
    ["arrowleft"], the frame looks for ["ArrowLeft"].  A frame after
    pressing [a] steers to 0.05 and after [d] to -0.05, a frame after
    pressing ArrowLeft or ArrowRight leaves the angle at 0. *)
Theorem arrow_keys_do_not_steer :
  keysPressed (run [KeyDown "ArrowLeft"] initialState) = {["arrowleft"]} ∪ ∅
  /\ steeringAngleRef (run [KeyDown "a"; Frame defaultConfig] initialState) = 0.05
  /\ steeringAngleRef (run [KeyDown "ArrowLeft"; Frame defaultConfig] initialState) = 0
  /\ steeringAngleRef (run [KeyDown "d"; Frame defaultConfig] initialState) = - 0.05
  /\ steeringAngleRef (run [KeyDown "ArrowRight"; Frame defaultConfig] initialState) = 0.
Proof.
  pose proof steeringSpeed_lt_max as Hs. unfold steeringSpeed in Hs.
  split; [reflexivity|].
  unfold run. cbn [fold_left step].
  rewrite !animate_steeringAngleRef.
  rewrite keyDown_a, keyDown_d, keyDown_ArrowLeft, keyDown_ArrowRight.
  cbn [keysPressed steeringAngleRef].
  repeat split.
  - rewrite updateSteeringAngle_left by (vm_compute; reflexivity).
    unfold steeringSpeed. rewrite Rmin_left; lra.
  - rewrite updateSteeringAngle_none by (vm_compute; reflexivity).
    apply returnToCenter_0.
  - rewrite updateSteeringAngle_right by (vm_compute; reflexivity).
    unfold steeringSpeed. rewrite Rmax_left; lra.
  - rewrite updateSteeringAngle_none by (vm_compute; reflexivity).
    apply returnToCenter_0.
Qed.

(** ** Rolling *)

(** C7, as stated, fails: 0 is an admissible roll speed, and a frame
    under it leaves the accumulator where it was. *)
Lemma roll_not_increasing_at_speed_0 :
  admissibleRotationSpeed 0
  /\ wheelRotationRef (fst (animate (mkConfig AxisY AxisX 0 0) initialState))
     = wheelRotationRef initialState
  /\ ~ wheelRotationRef initialState
       < wheelRotationRef (fst (animate (mkConfig AxisY AxisX 0 0) initialState)).
Proof.
  rewrite animate_wheelRotationRef. cbn. unfold admissibleRotationSpeed.
  repeat split; lra.
Qed.

(** C7, amended: a frame adds the configured roll speed to the accumulator,
    nothing else; no other event changes it; the accumulator strictly
    increases on a frame whose roll speed is positive and keeps its value on
    a frame whose roll speed is 0. *)
Theorem roll_accumulates (cfg : Config) (st : State) (ev : Event) :
  wheelRotationRef (fst (animate cfg st))
  = wheelRotationRef st + manualRotationSpeed cfg
  /\ (0 < manualRotationSpeed cfg ->
      wheelRotationRef st < wheelRotationRef (fst (animate cfg st)))
  /\ (manualRotationSpeed cfg = 0 ->
      wheelRotationRef (fst (animate cfg st)) = wheelRotationRef st)
  /\ match ev with
     | Frame _ => True
     | _ => wheelRotationRef (step st ev) = wheelRotationRef st
     end.
Proof.
  rewrite animate_wheelRotationRef. repeat split; try (intros; lra).
  destruct ev as [model|key|key|cfg']; cbn; try exact I.
  - unfold onLoad. destruct (traverse 0 model []). reflexivity.
  - unfold handleKeyDown. destruct (_ || _); reflexivity.
  - reflexivity.
Qed.

Lemma roll_accumulates_witness :
  wheelRotationRef initialState
  < wheelRotationRef (fst (animate defaultConfig initialState))
  /\ wheelRotationRef (fst (animate (mkConfig AxisY AxisX 0 0) initialState))
     = wheelRotationRef initialState.
Proof.
  split.
  - apply (roll_accumulates defaultConfig initialState (KeyUp "a")). cbn. lra.
  - apply (roll_accumulates (mkConfig AxisY AxisX 0 0) initialState (KeyUp "a")).
    reflexivity.
Defined.

(** ** The wheel loop *)

Lemma copyQuaternion_name wheel q : name (copyQuaternion wheel q) = name wheel.
Proof. reflexivity. Qed.

Lemma copyQuaternion_initialRotation wheel q :
  initialRotation (copyQuaternion wheel q) = initialRotation wheel.
Proof. reflexivity. Qed.

Section WheelLoop.

(** The values the loop body reads from the enclosing frame. *)
Context (cfg : Config) (s r : R).

(** A node that is not referenced from the wheel list is not written,
    however the loop ends. *)
Lemma forEachWheel_other wheels : forall (store : list Object3D) (i : nat),
  i ∉ wheels -> fst (forEachWheel cfg s r wheels store) !! i = store !! i.
Proof.
  induction wheels as [|j wheels IH]; intros store i Hi; [reflexivity|].
  apply not_elem_of_cons in Hi as [Hij Hi]. cbn.
  destruct (store !! j) as [wheel|] eqn:Hj; [|reflexivity].
  destruct (initialRotation wheel) as [initial|]; [|reflexivity].
  rewrite IH by assumption. now apply list_lookup_insert_ne.
Qed.

(** With every rest rotation captured the loop ends normally; it keeps the
    name and rest rotation of every node and gives each referenced node the
    quaternion composed from its rest rotation. *)
Lemma forEachWheel_spec wheels : forall store : list Object3D,
  Forall (fun i => exists wheel initial,
            store !! i = Some wheel /\ initialRotation wheel = Some initial) wheels ->
  exists store',
    forEachWheel cfg s r wheels store = (store', Normal)
    /\ forall (i : nat) (w : Object3D), store !! i = Some w ->
         exists w', store' !! i = Some w'
           /\ name w' = name w
           /\ initialRotation w' = initialRotation w
           /\ (i ∈ wheels -> forall e, initialRotation w = Some e ->
                 quaternion w' = wheelQuaternion cfg s r (name w) e).
Proof.
  induction wheels as [|j wheels IH]; intros store HF.
  - exists store. split; [reflexivity|]. intros i w Hw. exists w.
    repeat split; try assumption. intros Hin. now apply elem_of_nil in Hin.
  - apply Forall_cons in HF as [(wj & ej & Hj & Hej) HF]. cbn. rewrite Hj, Hej.
    set (q := wheelQuaternion cfg s r (name wj) ej).
    set (store1 := <[j := copyQuaternion wj q]> store).
    assert (Hjlt : (j < length store)%nat) by (eapply lookup_lt_Some; eassumption).
    assert (H1j : store1 !! j = Some (copyQuaternion wj q))
      by (now apply list_lookup_insert_eq).
    destruct (IH store1) as (store' & Hrun & Hspec).
    { eapply Forall_impl; [exact HF|]. intros k (wk & ek & Hk & Hek). cbn beta.
      destruct (decide (k = j)) as [->|Hne].
      - exists (copyQuaternion wj q), ej. now split.
      - exists wk, ek. split; [|assumption].
        unfold store1. now rewrite list_lookup_insert_ne. }
    exists store'. split; [exact Hrun|]. intros i w Hw.
    destruct (decide (i = j)) as [->|Hne].
    + assert (w = wj) by congruence. subst w.
      destruct (Hspec j _ H1j) as (w' & Hw' & Hn & Hi & Hq).
      exists w'. repeat split; try assumption.
      intros _ e He. assert (e = ej) by congruence. subst e.
      destruct (decide (j ∈ wheels)) as [Hin|Hnin].
      * now apply Hq.
      * pose proof (forEachWheel_other wheels store1 j Hnin) as Ho.
        rewrite Hrun in Ho. cbn in Ho. rewrite Hw', H1j in Ho.
        injection Ho as ->. reflexivity.
    + assert (H1i : store1 !! i = Some w)
        by (unfold store1; now rewrite list_lookup_insert_ne).
      destruct (Hspec i _ H1i) as (w' & Hw' & Hn & Hi & Hq).
      exists w'. repeat split; try assumption.
      intros Hin. apply elem_of_cons in Hin as [?|Hin]; [congruence|]. now apply Hq.
Qed.

End WheelLoop.

(** One frame on a state whose wheels are all captured. *)
Lemma animate_wheels cfg st :
  wheelsCaptured st ->
  snd (animate cfg st) = Normal
  /\ forall (i : nat) (w : Object3D), nodes st !! i = Some w ->
       exists w', nodes (fst (animate cfg st)) !! i = Some w'
         /\ name w' = name w
         /\ initialRotation w' = initialRotation w
         /\ (i ∈ wheelsRef st -> forall e, initialRotation w = Some e ->
               quaternion w'
               = wheelQuaternion cfg (steeringAngleRef (fst (animate cfg st)))
                   (wheelRotationRef (fst (animate cfg st))) (name w) e).
Proof.
  intros Hwf. unfold animate.
  destruct (forEachWheel_spec cfg
              (updateSteeringAngle (keysPressed st) (steeringAngleRef st))
              (wheelRotationRef st + manualRotationSpeed cfg)
              (wheelsRef st) (nodes st) Hwf) as (store' & -> & Hspec).
  split; [reflexivity|]. exact Hspec.
Qed.

Lemma animate_other cfg st (i : nat) :
  i ∉ wheelsRef st -> nodes (fst (animate cfg st)) !! i = nodes st !! i.
Proof.
  intros Hi. unfold animate.
  pose proof (forEachWheel_other cfg
                (updateSteeringAngle (keysPressed st) (steeringAngleRef st))
                (wheelRotationRef st + manualRotationSpeed cfg)
                (wheelsRef st) (nodes st) i Hi) as Ho.
  destruct (forEachWheel _ _ _ _ _). exact Ho.
Qed.

(** ** The load callback *)

Lemma collectWheel_wheels i child rot wheels :
  snd (collectWheel i child rot wheels)
  = if startsWith (name child) "wheel_" then wheels ++ [i] else wheels.
Proof. unfold collectWheel. now destruct (startsWith _ _). Qed.

Lemma collectWheel_node i child rot wheels :
  name (fst (collectWheel i child rot wheels)) = name child
  /\ quaternion (fst (collectWheel i child rot wheels)) = quaternion child
  /\ (startsWith (name child) "wheel_" = false ->
      fst (collectWheel i child rot wheels) = child)
  /\ (startsWith (name child) "wheel_" = true ->
      exists e, initialRotation (fst (collectWheel i child rot wheels)) = Some e).
Proof.
  unfold collectWheel. destruct (startsWith _ _); cbn.
  - destruct (initialRotation child) as [e|] eqn:He; cbn; repeat split; try discriminate.
    + intros _. now exists e.
    + intros _. now exists rot.
  - repeat split. discriminate.
Qed.

(** The references collected are those of the nodes whose name starts with
    ["wheel_"]. *)
Lemma traverse_wheels model : forall (i0 : nat) (ws : list nat) (j : nat),
  j ∈ snd (traverse i0 model ws)
  <-> j ∈ ws \/ exists (k : nat) child rot,
        j = (i0 + k)%nat /\ model !! k = Some (child, rot)
        /\ startsWith (name child) "wheel_" = true.
Proof.
  induction model as [|[child rot] rest IH]; intros i0 ws j; cbn.
  - split; [now left|]. intros [H|(k & c & r & _ & Hk & _)]; [exact H|].
    now rewrite lookup_nil in Hk.
  - pose proof (collectWheel_wheels i0 child rot ws) as Hc.
    destruct (collectWheel i0 child rot ws) as [child' ws1]. cbn in Hc. subst ws1.
    specialize (IH (S i0) (if startsWith (name child) "wheel_" then ws ++ [i0] else ws) j).
    destruct (traverse (S i0) rest _) as [rest' ws2]. cbn in IH |- *.
    rewrite IH. clear IH. split.
    + intros [Hin|(k & c & r & -> & Hk & Hp)].
      * destruct (startsWith (name child) "wheel_") eqn:Hp; [|now left].
        apply elem_of_app in Hin as [Hin|Hin]; [now left|].
        apply list_elem_of_singleton in Hin. subst j.
        right. exists 0%nat, child, rot. repeat split; [lia|assumption].
      * right. exists (S k), c, r. repeat split; [lia|assumption|assumption].
    + intros [Hin|(k & c & r & -> & Hk & Hp)].
      * left. destruct (startsWith (name child) "wheel_"); [|assumption].
        apply elem_of_app. now left.
      * destruct k as [|k]; cbn in Hk.
        -- injection Hk as -> ->. rewrite Hp. left.
           apply elem_of_app. right. apply list_elem_of_singleton. lia.
        -- right. exists k, c, r. repeat split; [lia|assumption|assumption].
Qed.

(** The traversal keeps every node in its place, with its name and
    quaternion; it writes nothing to a node outside the ["wheel_"] prefix and
    leaves every prefixed node with a rest rotation. *)
Lemma traverse_nodes model : forall (i0 : nat) (ws : list nat) (k : nat) child rot,
  model !! k = Some (child, rot) ->
  exists child', fst (traverse i0 model ws) !! k = Some child'
    /\ name child' = name child
    /\ quaternion child' = quaternion child
    /\ (startsWith (name child) "wheel_" = false -> child' = child)
    /\ (startsWith (name child) "wheel_" = true ->
        exists e, initialRotation child' = Some e).
Proof.
  induction model as [|[c0 r0] rest IH]; intros i0 ws k child rot Hk; cbn.
  - now rewrite lookup_nil in Hk.
  - pose proof (collectWheel_node i0 c0 r0 ws) as Hc.
    destruct (collectWheel i0 c0 r0 ws) as [c0' ws1]. cbn in Hc.
    specialize (IH (S i0) ws1).
    destruct (traverse (S i0) rest ws1) as [rest' ws2]. cbn in IH |- *.
    destruct k as [|k]; cbn in Hk |- *.
    + injection Hk as -> ->. exists c0'. split; [reflexivity|exact Hc].
    + now apply (IH k child rot).
Qed.

Lemma onLoad_nodes model st : nodes (onLoad model st) = fst (traverse 0 model []).
Proof. unfold onLoad. now destruct (traverse 0 model []). Qed.

Lemma onLoad_wheelsRef model st : wheelsRef (onLoad model st) = snd (traverse 0 model []).
Proof. unfold onLoad. now destruct (traverse 0 model []). Qed.

(** After a load every collected wheel has its rest rotation. *)
Lemma onLoad_wheelsCaptured model st : wheelsCaptured (onLoad model st).
Proof.
  unfold wheelsCaptured. rewrite onLoad_nodes, onLoad_wheelsRef.
  apply Forall_forall. intros j Hj.
  apply traverse_wheels in Hj as [Hj|(k & child & rot & -> & Hk & Hp)].
  - now apply elem_of_nil in Hj.
  - destruct (traverse_nodes model 0 [] k child rot Hk) as (c' & Hc' & _ & _ & _ & He).
    destruct (He Hp) as [e He']. exists c', e. now split.
Qed.

(** ** States the component can reach *)

Lemma animate_wheelsCaptured cfg st :
  wheelsCaptured st -> wheelsCaptured (fst (animate cfg st)).
Proof.
  intros Hwf. destruct (animate_wheels cfg st Hwf) as [_ Hspec].
  unfold wheelsCaptured. rewrite animate_wheelsRef.
  eapply Forall_impl; [exact Hwf|]. intros k (w & e & Hk & He). cbn beta.
  destruct (Hspec k w Hk) as (w' & Hw' & _ & Hi & _).
  exists w', e. split; [assumption|congruence].
Qed.

Lemma step_wheelsCaptured st ev : wheelsCaptured st -> wheelsCaptured (step st ev).
Proof.
  intros Hwf. destruct ev as [model|key|key|cfg]; cbn.
  - apply onLoad_wheelsCaptured.
  - unfold handleKeyDown. now destruct (_ || _).
  - exact Hwf.
  - now apply animate_wheelsCaptured.
Qed.

Lemma run_wheelsCaptured evs : forall st, wheelsCaptured st -> wheelsCaptured (run evs st).
Proof.
  induction evs as [|ev evs IH]; intros st Hwf; [exact Hwf|].
  apply (IH (step st ev)). now apply step_wheelsCaptured.
Qed.

(** Whatever the host delivers, no frame of the component throws. *)
Lemma frames_end_normally evs cfg : snd (animate cfg (run evs initialState)) = Normal.
Proof.
  apply animate_wheels, run_wheelsCaptured. apply Forall_nil_2.
Qed.

(** ** Quaternions *)

(** [setFromEuler] is the product of the three axis rotations, taken in the
    order the Euler names. *)
Lemma setFromEuler_product x y z o :
  setFromEuler (mkEuler x y z o)
  = let rx := setFromAxisAngle (axisVec AxisX) x in
    let ry := setFromAxisAngle (axisVec AxisY) y in
    let rz := setFromAxisAngle (axisVec AxisZ) z in
    match o with
    | XYZ => multiply (multiply rx ry) rz
    | YXZ => multiply (multiply ry rx) rz
    | ZXY => multiply (multiply rz rx) ry
    | ZYX => multiply (multiply rz ry) rx
    | YZX => multiply (multiply ry rz) rx
    | XZY => multiply (multiply rx rz) ry
    end.
Proof.
  destruct o; unfold setFromEuler, multiply, setFromAxisAngle, axisVec; cbn;
    f_equal; ring.
Qed.

(** ** Orientation of the wheels *)

Lemma sameRest_wheelsCaptured st st0 :
  wheelsRef st0 = wheelsRef st -> sameRest (nodes st0) (nodes st) ->
  wheelsCaptured st -> wheelsCaptured st0.
Proof.
  unfold wheelsCaptured, sameRest. intros -> Hsame Hwf.
  eapply Forall_impl; [exact Hwf|]. intros k (w & e & Hk & He). cbn beta.
  destruct (Forall2_lookup_r _ _ _ _ _ Hsame Hk) as (w0 & Hk0 & _ & Hi).
  exists w0, e. split; [assumption|congruence].
Qed.

(** C1: on a frame, every collected wheel gets the quaternion
    [rest * steer * roll] when its name is one of the two front names and
    [rest * roll] otherwise, where [rest] is the quaternion of the captured
    rest rotation, each factor multiplied on the right in that order; the
    node keeps its name and rest rotation; and the result is the same from
    any other store that agrees on names and rest rotations, whatever
    quaternions its nodes carried before the frame. *)
Theorem wheel_orientation_recomputed
  (cfg : Config) (st : State) (i : nat) (wheel : Object3D) (initial : Euler) :
  wheelsCaptured st ->
  i ∈ wheelsRef st ->
  nodes st !! i = Some wheel ->
  initialRotation wheel = Some initial ->
  exists wheel',
    nodes (fst (animate cfg st)) !! i = Some wheel'
    /\ quaternion wheel'
       = (if isFrontWheel (name wheel)
          then multiply
                 (multiply (setFromEuler initial)
                           (steeringQ cfg (steeringAngleRef (fst (animate cfg st)))
                                      (name wheel)))
                 (rotationQ cfg (wheelRotationRef (fst (animate cfg st))))
          else multiply (setFromEuler initial)
                        (rotationQ cfg (wheelRotationRef (fst (animate cfg st)))))
    /\ name wheel' = name wheel
    /\ initialRotation wheel' = Some initial
    /\ forall st0 : State,
         wheelsRef st0 = wheelsRef st ->
         steeringAngleRef st0 = steeringAngleRef st ->
         keysPressed st0 = keysPressed st ->
         wheelRotationRef st0 = wheelRotationRef st ->
         sameRest (nodes st0) (nodes st) ->
         exists wheel0',
           nodes (fst (animate cfg st0)) !! i = Some wheel0'
           /\ quaternion wheel0' = quaternion wheel'.
Proof.
  intros Hwf Hin Hi He.
  destruct (animate_wheels cfg st Hwf) as [_ Hspec].
  destruct (Hspec i wheel Hi) as (wheel' & Hw' & Hn & Hinit & Hq).
  specialize (Hq Hin initial He).
  exists wheel'. split; [exact Hw'|]. split.
  { rewrite Hq. unfold wheelQuaternion, steeredQ.
    now destruct (isFrontWheel (name wheel)). }
  split; [exact Hn|]. split; [congruence|].
  intros st0 Hws Hsa Hkp Hroll Hsame.
  assert (Hwf0 : wheelsCaptured st0) by (eapply sameRest_wheelsCaptured; eassumption).
  destruct (Forall2_lookup_r _ _ _ _ _ Hsame Hi) as (w0 & Hi0 & Hn0 & Hr0).
  destruct (animate_wheels cfg st0 Hwf0) as [_ Hspec0].
  destruct (Hspec0 i w0 Hi0) as (w0' & Hw0' & _ & _ & Hq0).
  exists w0'. split; [exact Hw0'|].
  rewrite Hq, (Hq0 ltac:(now rewrite Hws) initial ltac:(congruence)).
  rewrite !animate_steeringAngleRef, !animate_wheelRotationRef.
  now rewrite Hsa, Hkp, Hroll, Hn0.
Qed.

Lemma wheel_orientation_recomputed_witness :
  exists wheel',
    nodes (fst (animate defaultConfig (onLoad exampleModel initialState))) !! 2%nat
    = Some wheel'
    /\ name wheel' = "wheel_front_right"
    /\ initialRotation wheel' = Some restPose.
Proof.
  destruct (wheel_orientation_recomputed defaultConfig
              (onLoad exampleModel initialState) 2
              (mkObject3D "wheel_front_right" identity (Some restPose)) restPose)
    as (wheel' & Hw & _ & Hn & Hi & _).
  - apply onLoad_wheelsCaptured.
  - vm_compute. set_solver.
  - reflexivity.
  - reflexivity.
  - exists wheel'. repeat split; assumption.
Defined.

Lemma multiply_identity_l q : multiply identity q = q.
Proof. destruct q as [x y z w]. unfold multiply, identity. cbn. f_equal; ring. Qed.

Lemma setFromEuler_restPose : setFromEuler restPose = identity.
Proof.
  unfold setFromEuler, restPose, identity. cbn.
  replace (0 / 2) with 0 by lra. rewrite sin_0, cos_0. f_equal; ring.
Qed.

(** C4: the steering angle applied to the front right wheel is the negation
    of the one applied to the front left wheel, for every steering angle and
    configuration; and with an identity rest orientation, steering angle
    0.3, manual offset 0 and steering axis Y, the front right wheel's
    quaternion before the roll is the rotation of -0.3 rad about Y. *)
Theorem front_right_steering_mirrored
  (cfg : Config) (steering : R) (initial : Euler) (axis : Axis) (speed : R) :
  finalSteeringAngle cfg steering "wheel_front_right"
  = - finalSteeringAngle cfg steering "wheel_front_left"
  /\ steeringQ cfg steering "wheel_front_right"
     = setFromAxisAngle (axisVec (steeringAxis cfg))
         (- finalSteeringAngle cfg steering "wheel_front_left")
  /\ (setFromEuler initial = identity ->
      steeredQ (mkConfig AxisY axis 0 speed) 0.3 "wheel_front_right" initial
      = setFromAxisAngle (mkVector3 0 1 0) (- 0.3)).
Proof.
  assert (Hneg : forall c s, finalSteeringAngle c s "wheel_front_right"
                             = - finalSteeringAngle c s "wheel_front_left").
  { intros c s. unfold finalSteeringAngle.
    change (isRightWheel "wheel_front_right") with true.
    change (isRightWheel "wheel_front_left") with false. reflexivity. }
  split; [apply Hneg|]. split.
  - unfold steeringQ. now rewrite Hneg.
  - intros Hrest. unfold steeredQ.
    change (isFrontWheel "wheel_front_right") with true. cbv iota.
    rewrite Hrest, multiply_identity_l. unfold steeringQ. rewrite Hneg.
    change (isRightWheel "wheel_front_left") with false.
    unfold finalSteeringAngle.
    change (isRightWheel "wheel_front_left") with false. cbn.
    replace (- (0.3 + 0)) with (- 0.3) by lra. reflexivity.
Qed.

Lemma front_right_steering_mirrored_witness :
  steeredQ (mkConfig AxisY AxisX 0 0.05) 0.3 "wheel_front_right" restPose
  = setFromAxisAngle (mkVector3 0 1 0) (- 0.3).
Proof.
  apply (front_right_steering_mirrored defaultConfig 0 restPose AxisX 0.05).
  apply setFromEuler_restPose.
Defined.

(** C5: take two frames from states with the same nodes, wheel list and
    roll accumulator, under configurations with the same roll axis and
    roll speed; the steering angles, held keys, steering axes and manual
    steering offsets may differ.  A collected wheel named
    [wheel_rear_left] or [wheel_rear_right] gets the same quaternion in
    both, namely [rest * roll]. *)
Theorem rear_wheels_ignore_steering
  (cfg1 cfg2 : Config) (st1 st2 : State) (i : nat) (wheel : Object3D)
  (initial : Euler) :
  wheelsCaptured st1 ->
  nodes st2 = nodes st1 ->
  wheelsRef st2 = wheelsRef st1 ->
  wheelRotationRef st2 = wheelRotationRef st1 ->
  rotationAxis cfg2 = rotationAxis cfg1 ->
  manualRotationSpeed cfg2 = manualRotationSpeed cfg1 ->
  i ∈ wheelsRef st1 ->
  nodes st1 !! i = Some wheel ->
  initialRotation wheel = Some initial ->
  name wheel = "wheel_rear_left" \/ name wheel = "wheel_rear_right" ->
  exists w1 w2,
    nodes (fst (animate cfg1 st1)) !! i = Some w1
    /\ nodes (fst (animate cfg2 st2)) !! i = Some w2
    /\ quaternion w1 = quaternion w2
    /\ quaternion w1
       = multiply (setFromEuler initial)
           (setFromAxisAngle (axisVec (rotationAxis cfg1))
                             (wheelRotationRef st1 + manualRotationSpeed cfg1)).
Proof.
  intros Hwf Hnodes Hws Hroll Hax Hsp Hin Hi He Hname.
  assert (Hwf2 : wheelsCaptured st2).
  { unfold wheelsCaptured in *. now rewrite Hnodes, Hws. }
  assert (Hrear : isFrontWheel (name wheel) = false)
    by (destruct Hname as [-> | ->]; reflexivity).
  destruct (animate_wheels cfg1 st1 Hwf) as [_ H1].
  destruct (animate_wheels cfg2 st2 Hwf2) as [_ H2].
  destruct (H1 i wheel Hi) as (w1 & Hw1 & _ & _ & Hq1).
  destruct (H2 i wheel ltac:(now rewrite Hnodes)) as (w2 & Hw2 & _ & _ & Hq2).
  specialize (Hq1 Hin initial He).
  specialize (Hq2 ltac:(now rewrite Hws) initial He).
  exists w1, w2. split; [exact Hw1|]. split; [exact Hw2|].
  rewrite Hq1, Hq2. unfold wheelQuaternion, steeredQ, rotationQ. rewrite Hrear.
  rewrite !animate_wheelRotationRef, Hax, Hsp, Hroll. split; reflexivity.
Qed.

Lemma rear_wheels_ignore_steering_witness :
  exists w1 w2,
    nodes (fst (animate defaultConfig (onLoad exampleModel initialState))) !! 3%nat
    = Some w1
    /\ nodes (fst (animate (mkConfig AxisZ AxisX 0.5 0.05)
                     (onLoad exampleModel (mkState [] [] 0.3 {["a"]} 0)))) !! 3%nat
       = Some w2
    /\ quaternion w1 = quaternion w2.
Proof.
  destruct (rear_wheels_ignore_steering defaultConfig (mkConfig AxisZ AxisX 0.5 0.05)
              (onLoad exampleModel initialState)
              (onLoad exampleModel (mkState [] [] 0.3 {["a"]} 0)) 3
              (mkObject3D "wheel_rear_left" identity (Some restPose)) restPose)
    as (w1 & w2 & H1 & H2 & Hq & _);
    try reflexivity.
  - apply onLoad_wheelsCaptured.
  - vm_compute. set_solver.
  - now left.
  - exists w1, w2. repeat split; assumption.
Defined.

(** C10: on a frame there is one rolling rotation, the rotation of the
    accumulated roll angle about the configured roll axis, and the
    quaternion of every collected wheel, left or right, front or rear, is
    its quaternion before the roll multiplied on the right by that same
    rotation. *)
Theorem roll_rotation_shared (cfg : Config) (st : State) :
  wheelsCaptured st ->
  exists rolling : Quaternion,
    rolling = setFromAxisAngle (axisVec (rotationAxis cfg))
                (wheelRotationRef (fst (animate cfg st)))
    /\ forall (i : nat) (wheel : Object3D) (initial : Euler),
         i ∈ wheelsRef st ->
         nodes st !! i = Some wheel ->
         initialRotation wheel = Some initial ->
         exists wheel',
           nodes (fst (animate cfg st)) !! i = Some wheel'
           /\ quaternion wheel'
              = multiply (steeredQ cfg (steeringAngleRef (fst (animate cfg st)))
                            (name wheel) initial)
                         rolling.
Proof.
  intros Hwf. eexists. split; [reflexivity|].
  intros i wheel initial Hin Hi He.
  destruct (animate_wheels cfg st Hwf) as [_ Hspec].
  destruct (Hspec i wheel Hi) as (wheel' & Hw' & _ & _ & Hq).
  exists wheel'. split; [exact Hw'|]. now apply Hq.
Qed.

Lemma roll_rotation_shared_witness :
  exists rolling : Quaternion,
    rolling = setFromAxisAngle (axisVec AxisX) (0 + 0.05)
    /\ exists left right,
         nodes (fst (animate defaultConfig (onLoad exampleModel initialState))) !! 3%nat
         = Some left
         /\ nodes (fst (animate defaultConfig (onLoad exampleModel initialState))) !! 4%nat
            = Some right
         /\ quaternion left = multiply (setFromEuler restPose) rolling
         /\ quaternion right = multiply (setFromEuler restPose) rolling.
Proof.
  destruct (roll_rotation_shared defaultConfig (onLoad exampleModel initialState)
              (onLoad_wheelsCaptured exampleModel initialState))
    as (rolling & Hr & Hall).
  exists rolling. split.
  - rewrite Hr, animate_wheelRotationRef. reflexivity.
  - destruct (Hall 3%nat (mkObject3D "wheel_rear_left" identity (Some restPose)) restPose)
      as (l & Hl & Hql); [vm_compute; set_solver | reflexivity | reflexivity |].
    destruct (Hall 4%nat (mkObject3D "wheel_rear_right" identity (Some restPose)) restPose)
      as (r & Hr' & Hqr); [vm_compute; set_solver | reflexivity | reflexivity |].
    exists l, r. repeat split; assumption.
Defined.

(** ** Which nodes the frames write *)

(** An event other than a load keeps the wheel list and every node that
    is not on it. *)
Lemma step_other st ev (i : nat) :
  isLoaded ev = false ->
  wheelsRef (step st ev) = wheelsRef st
  /\ (i ∉ wheelsRef st -> nodes (step st ev) !! i = nodes st !! i).
Proof.
  destruct ev as [model|key|key|cfg]; cbn; [discriminate| | |]; intros _.
  - unfold handleKeyDown. destruct (_ || _); now split.
  - now split.
  - split; [apply animate_wheelsRef | apply animate_other].
Qed.

Lemma run_other evs : forall st (i : nat),
  forallb (fun ev => negb (isLoaded ev)) evs = true ->
  i ∉ wheelsRef st ->
  nodes (run evs st) !! i = nodes st !! i.
Proof.
  induction evs as [|ev evs IH]; intros st i Hevs Hi; [reflexivity|].
  cbn in Hevs. apply andb_prop in Hevs as [Hev Hevs].
  apply negb_true_iff in Hev.
  destruct (step_other st ev i Hev) as [Hws Hnode].
  unfold run. cbn [fold_left]. fold (run evs (step st ev)).
  rewrite IH; [now apply Hnode | assumption | now rewrite Hws].
Qed.

Lemma sin_0025_pos : 0 < sin ((0 + 0.05) / 2).
Proof. pose proof PI2_3_2. apply sin_gt_0; lra. Qed.

(** C9, as stated, fails: a node named [wheel_spare] is none of the four
    names, yet the load callback collects it and the first frame overwrites
    its quaternion. *)
Lemma spare_wheel_is_animated :
  namedWheel "wheel_spare" = false
  /\ wheelsRef (onLoad spareModel initialState) = [0%nat]
  /\ nodes (onLoad spareModel initialState) !! 0%nat
     = Some (mkObject3D "wheel_spare" identity (Some restPose))
  /\ exists wheel',
       nodes (run [Loaded spareModel; Frame defaultConfig] initialState) !! 0%nat
       = Some wheel'
       /\ quaternion wheel' <> identity.
Proof.
  split; [reflexivity|]. split; [reflexivity|]. split; [reflexivity|].
  exists (copyQuaternion (mkObject3D "wheel_spare" identity (Some restPose))
            (wheelQuaternion defaultConfig (updateSteeringAngle ∅ 0) (0 + 0.05)
               "wheel_spare" restPose)).
  split; [reflexivity|].
  unfold wheelQuaternion, steeredQ.
  change (isFrontWheel "wheel_spare") with false. cbv iota.
  rewrite setFromEuler_restPose, multiply_identity_l.
  intros H. apply (f_equal q_x) in H. cbn in H.
  pose proof sin_0025_pos. lra.
Qed.

Lemma namedWheel_prefixed n : namedWheel n = true -> startsWith n "wheel_" = true.
Proof.
  unfold namedWheel. intros H.
  repeat (apply orb_prop in H as [H|H]); apply String.eqb_eq in H; subst n; reflexivity.
Qed.

(** C9, amended: the nodes collected by the load callback are exactly the
    nodes of the model whose name starts with ["wheel_"], the four names of
    the convention among them; a node whose name does not start with
    ["wheel_"] is stored as it was loaded and stays so through any key events
    and frames that follow the load. *)
Theorem wheels_selected_by_prefix
  (model : list (Object3D * Euler)) (st : State) (evs : list Event)
  (i : nat) (child : Object3D) (rot : Euler) :
  (forall j : nat,
     j ∈ wheelsRef (onLoad model st)
     <-> exists c r, model !! j = Some (c, r) /\ startsWith (name c) "wheel_" = true)
  /\ (forall n : string, namedWheel n = true -> startsWith n "wheel_" = true)
  /\ (model !! i = Some (child, rot) ->
      startsWith (name child) "wheel_" = false ->
      forallb (fun ev => negb (isLoaded ev)) evs = true ->
      (i ∉ wheelsRef (onLoad model st))
      /\ nodes (run evs (onLoad model st)) !! i = Some child).
Proof.
  assert (Hsel : forall j : nat,
             j ∈ wheelsRef (onLoad model st)
             <-> exists c r, model !! j = Some (c, r)
                             /\ startsWith (name c) "wheel_" = true).
  { intros j. rewrite onLoad_wheelsRef, traverse_wheels. split.
    - intros [H|(k & c & r & -> & Hk & Hp)]; [now apply elem_of_nil in H|].
      now exists c, r.
    - intros (c & r & Hj & Hp). right. now exists j, c, r. }
  split; [exact Hsel|]. split; [exact namedWheel_prefixed|]. intros Hi Hp Hevs.
  assert (Hnot : i ∉ wheelsRef (onLoad model st)).
  { intros Hin. apply Hsel in Hin as (c & r & Hc & Hpc). congruence. }
  split; [exact Hnot|].
  rewrite run_other by assumption. rewrite onLoad_nodes.
  destruct (traverse_nodes model 0 [] i child rot Hi) as (c' & Hc' & _ & _ & Hsame & _).
  rewrite Hc'. f_equal. now apply Hsame.
Qed.

Lemma wheels_selected_by_prefix_witness :
  (0%nat ∉ wheelsRef (onLoad exampleModel initialState))
  /\ nodes (run [KeyDown "a"; Frame defaultConfig; KeyUp "a"; Frame defaultConfig]
              (onLoad exampleModel initialState)) !! 0%nat
     = Some (mkObject3D "body" identity None).
Proof.
  apply (wheels_selected_by_prefix exampleModel initialState
           [KeyDown "a"; Frame defaultConfig; KeyUp "a"; Frame defaultConfig]
           0 (mkObject3D "body" identity None) restPose); reflexivity.
Defined.

(** ** Key events *)

Lemma handleKeyDown_keys key st :
  keysPressed (handleKeyDown key st)
  = if bool_decide (toLowerCase key ∈ steeringKeys)
    then {[toLowerCase key]} ∪ keysPressed st
    else keysPressed st.
Proof.
  unfold handleKeyDown, steeringKeys.
  destruct (String.eqb_spec (toLowerCase key) "arrowleft") as [->|H1];
    [reflexivity|].
  destruct (String.eqb_spec (toLowerCase key) "a") as [->|H2]; [reflexivity|].
  destruct (String.eqb_spec (toLowerCase key) "arrowright") as [->|H3];
    [reflexivity|].
  destruct (String.eqb_spec (toLowerCase key) "d") as [->|H4]; [reflexivity|].
  cbn. rewrite bool_decide_eq_false_2; [reflexivity | set_solver].
Qed.

Lemma step_keysPressed st ev :
  keysPressed st ⊆ steeringKeys -> keysPressed (step st ev) ⊆ steeringKeys.
Proof.
  intros Hst. destruct ev as [model|key|key|cfg]; cbn.
  - unfold onLoad. now destruct (traverse 0 model []).
  - rewrite handleKeyDown_keys. case_bool_decide; set_solver.
  - set_solver.
  - now rewrite animate_keysPressed.
Qed.

Lemma run_keysPressed evs : forall st,
  keysPressed st ⊆ steeringKeys -> keysPressed (run evs st) ⊆ steeringKeys.
Proof.
  induction evs as [|ev evs IH]; intros st Hst; [exact Hst|].
  apply (IH (step st ev)). now apply step_keysPressed.
Qed.

(** X1: whatever loads, key events and frames the component has seen, the
    set of held keys holds only the four lower-case names the key-down
    handler accepts; the names [ArrowLeft] and [ArrowRight] the frame tests
    are never in it. *)
Theorem held_keys_are_steering_names (evs : list Event) :
  keysPressed (run evs initialState) ⊆ steeringKeys
  /\ has "ArrowLeft" (keysPressed (run evs initialState)) = false
  /\ has "ArrowRight" (keysPressed (run evs initialState)) = false.
Proof.
  assert (H : keysPressed (run evs initialState) ⊆ steeringKeys)
    by (apply run_keysPressed; set_solver).
  split; [exact H|].
  unfold has, steeringKeys in *.
  split; apply bool_decide_eq_false_2; set_solver.
Qed.

Lemma handleKeyDown_other key st :
  toLowerCase key ∉ steeringKeys -> handleKeyDown key st = st.
Proof.
  unfold handleKeyDown, steeringKeys. intros Hk.
  destruct (String.eqb_spec (toLowerCase key) "arrowleft") as [E|_];
    [rewrite E in Hk; set_solver|].
  destruct (String.eqb_spec (toLowerCase key) "a") as [E|_];
    [rewrite E in Hk; set_solver|].
  destruct (String.eqb_spec (toLowerCase key) "arrowright") as [E|_];
    [rewrite E in Hk; set_solver|].
  destruct (String.eqb_spec (toLowerCase key) "d") as [E|_];
    [rewrite E in Hk; set_solver|].
  reflexivity.
Qed.

Lemma handleKeyUp_not_held key st :
  toLowerCase key ∉ keysPressed st -> handleKeyUp key st = st.
Proof.
  intros Hk. unfold handleKeyUp. destruct st as [ns ws a keys roll]. cbn in *.
  f_equal. set_solver.
Qed.

(** X2: a key whose lower-cased name is none of the four steering names is
    ignored: in every state the component can be in, its key-down and its
    key-up leave the whole state as it is. *)
Theorem other_keys_are_ignored (evs : list Event) (key : string) :
  toLowerCase key ∉ steeringKeys ->
  step (run evs initialState) (KeyDown key) = run evs initialState
  /\ step (run evs initialState) (KeyUp key) = run evs initialState.
Proof.
  intros Hk. cbn. split.
  - now apply handleKeyDown_other.
  - apply handleKeyUp_not_held.
    assert (H : keysPressed (run evs initialState) ⊆ steeringKeys)
      by (apply run_keysPressed; set_solver).
    set_solver.
Qed.

Lemma other_keys_are_ignored_witness :
  step (run [KeyDown "a"; Frame defaultConfig] initialState) (KeyDown "Shift")
  = run [KeyDown "a"; Frame defaultConfig] initialState
  /\ step (run [KeyDown "a"; Frame defaultConfig] initialState) (KeyUp "Shift")
     = run [KeyDown "a"; Frame defaultConfig] initialState.
Proof.
  apply (other_keys_are_ignored [KeyDown "a"; Frame defaultConfig] "Shift").
  vm_compute. set_solver.
Defined.

(** X3: key auto-repeat is harmless: a second key-down of the same key
    leaves the state the first one produced. *)
Theorem repeated_keyDown_is_idempotent (key : string) (st : State) :
  handleKeyDown key (handleKeyDown key st) = handleKeyDown key st.
Proof.
  unfold handleKeyDown. destruct (_ || _) eqn:E; cbn; rewrite ?E; [|reflexivity].
  cbn. f_equal. set_solver.
Qed.

(** X4: a key is released whatever the letter case of the two events: when
    the key-up's name lower-cases to the same string as the key-down's, the
    held set after both is the earlier set without that name. *)
Theorem keyUp_releases_across_case (down up : string) (st : State) :
  toLowerCase up = toLowerCase down ->
  keysPressed (handleKeyUp up (handleKeyDown down st))
  = keysPressed st ∖ {[toLowerCase down]}
  /\ toLowerCase down ∉ keysPressed (handleKeyUp up (handleKeyDown down st)).
Proof.
  intros E. unfold handleKeyUp. cbn. rewrite E, handleKeyDown_keys.
  case_bool_decide; split; set_solver.
Qed.

Lemma keyUp_releases_across_case_witness :
  keysPressed (handleKeyUp "a" (handleKeyDown "A" initialState)) = ∅ ∖ {["a"]}
  /\ "a" ∉ keysPressed (handleKeyUp "a" (handleKeyDown "A" initialState)).
Proof.
  apply (keyUp_releases_across_case "A" "a" initialState). reflexivity.
Defined.

(** ** Steering over several frames *)

(** Frames whose held keys all make the update act as [f] iterate [f]. *)
Lemma frames_uniform (f : R -> R) inputs st :
  Forall (fun input : Config * gset string =>
            forall a, updateSteeringAngle (snd input) a = f a) inputs ->
  steeringAngleRef (frames inputs st)
  = Nat.iter (length inputs) f (steeringAngleRef st).
Proof.
  intros H. revert st. induction H as [|input inputs Hf _ IH]; intros st.
  - reflexivity.
  - cbn [frames fold_left length]. fold (frames inputs (frameHolding st input)).
    rewrite IH, Nat.iter_succ_r. f_equal.
    unfold frameHolding. rewrite animate_steeringAngleRef. cbn. apply Hf.
Qed.

Lemma steer_left_iter n a :
  Nat.iter (S n) (fun x => Rmin (x + steeringSpeed) maxSteeringAngle) a
  = Rmin (a + INR (S n) * steeringSpeed) maxSteeringAngle.
Proof.
  assert (Hs : 0 < steeringSpeed) by (unfold steeringSpeed; lra).
  induction n as [|n IH].
  - cbn. now rewrite Rmult_1_l.
  - rewrite Nat.iter_succ, IH, (S_INR (S n)).
    unfold Rmin. repeat destruct (Rle_dec _ _); lra.
Qed.

Lemma steer_right_iter n a :
  Nat.iter (S n) (fun x => Rmax (x - steeringSpeed) (- maxSteeringAngle)) a
  = Rmax (a - INR (S n) * steeringSpeed) (- maxSteeringAngle).
Proof.
  assert (Hs : 0 < steeringSpeed) by (unfold steeringSpeed; lra).
  induction n as [|n IH].
  - cbn. now rewrite Rmult_1_l.
  - rewrite Nat.iter_succ, IH, (S_INR (S n)).
    unfold Rmax. repeat destruct (Rle_dec _ _); lra.
Qed.

Lemma PI_lt_32 : PI < 3.2.
Proof.
  destruct (PI_2_3_7_ineq 1) as [_ H].
  cbn in H. unfold tg_alt, PI_2_3_7_tg, Ratan_seq in H. cbn in H.
  lra.
Qed.

(** X5: a held steering key reaches full lock and stays there: after 32 or
    more consecutive frames with the left test true, started at any angle
    not below [- PI / 4], the angle is exactly [PI / 4]; after 32 or more
    with only the right test true, started at any angle not above [PI / 4],
    it is exactly [- PI / 4]. *)
Theorem steering_reaches_full_lock
  (inputs : list (Config * gset string)) (st : State) :
  (32 <= length inputs)%nat ->
  (- (PI / 4) <= steeringAngleRef st ->
   Forall (fun input : Config * gset string => steerLeftHeld (snd input) = true)
          inputs ->
   steeringAngleRef (frames inputs st) = PI / 4)
  /\ (steeringAngleRef st <= PI / 4 ->
      Forall (fun input : Config * gset string =>
                steerLeftHeld (snd input) = false
                /\ steerRightHeld (snd input) = true) inputs ->
      steeringAngleRef (frames inputs st) = - (PI / 4)).
Proof.
  intros Hlen. pose proof PI_lt_32 as Hpi.
  destruct inputs as [|input inputs]; [cbn in Hlen; lia|].
  assert (Hn : 32 <= INR (S (length inputs))).
  { cbn [length] in Hlen. apply le_INR in Hlen. simpl INR in Hlen at 1. lra. }
  split; intros Hst H.
  - rewrite (frames_uniform (fun x => Rmin (x + steeringSpeed) maxSteeringAngle)).
    + cbn [length]. rewrite steer_left_iter.
      unfold steeringSpeed, maxSteeringAngle. apply Rmin_right. lra.
    + eapply Forall_impl; [exact H|]. intros i Hi a. cbn beta in Hi.
      now apply updateSteeringAngle_left.
  - rewrite (frames_uniform (fun x => Rmax (x - steeringSpeed) (- maxSteeringAngle))).
    + cbn [length]. rewrite steer_right_iter.
      unfold steeringSpeed, maxSteeringAngle. apply Rmax_right. lra.
    + eapply Forall_impl; [exact H|]. intros i [Hl Hr] a.
      now apply updateSteeringAngle_right.
Qed.

Lemma steering_reaches_full_lock_witness :
  steeringAngleRef (frames (repeat (defaultConfig, {["a"]}) 32) initialState)
  = PI / 4.
Proof.
  pose proof PI_RGT_0 as Hpos.
  apply (proj1 (steering_reaches_full_lock (repeat (defaultConfig, {["a"]}) 32)
                  initialState ltac:(rewrite repeat_length; apply Nat.le_refl))).
  - cbn. lra.
  - apply Forall_forall. intros input Hin.
    apply list_elem_of_In, repeat_spec in Hin. subst input.
    vm_compute. reflexivity.
Defined.

(** X6: released steering is centred within 43 frames: from any angle of
    magnitude at most [PI / 4], 43 or more consecutive frames in which
    neither test sees a held key end with the angle exactly 0. *)
Theorem steering_recentres_within_43_frames
  (inputs : list (Config * gset string)) (st : State) :
  Rabs (steeringAngleRef st) <= PI / 4 ->
  Forall (fun input : Config * gset string =>
            steerLeftHeld (snd input) = false /\ steerRightHeld (snd input) = false)
         inputs ->
  (43 <= length inputs)%nat ->
  steeringAngleRef (frames inputs st) = 0.
Proof.
  intros Hst Hnone Hlen. pose proof PI_lt_32 as Hpi.
  rewrite (frames_without_input _ _ Hnone).
  apply (returnToCenter_after_threshold 42); [|lia].
  pose proof (Rabs_pos (steeringAngleRef st)) as Hp.
  rewrite Rabs_mult, (Rabs_right (0.9 ^ 42)) by lra. lra.
Qed.

Lemma steering_recentres_within_43_frames_witness :
  steeringAngleRef
    (frames (repeat (defaultConfig, ∅) 43) (mkState [] [] 0.5 ∅ 0)) = 0.
Proof.
  pose proof PI2_3_2 as Hpi.
  apply (steering_recentres_within_43_frames
           (repeat (defaultConfig, ∅) 43) (mkState [] [] 0.5 ∅ 0)).
  - cbn. rewrite Rabs_right; lra.
  - apply Forall_forall. intros input Hin.
    apply list_elem_of_In, repeat_spec in Hin. subst input.
    split; vm_compute; reflexivity.
  - rewrite repeat_length. apply Nat.le_refl.
Defined.

(** X7: a frame without steering input moves the angle toward 0 and never
    across it: a non-negative angle stays within [[0, a]], a non-positive one
    within [[a, 0]]. *)
Theorem released_steering_moves_toward_zero (keys : gset string) (a : R) :
  steerLeftHeld keys = false ->
  steerRightHeld keys = false ->
  (0 <= a -> 0 <= updateSteeringAngle keys a <= a)
  /\ (a <= 0 -> a <= updateSteeringAngle keys a <= 0)
  /\ Rabs (updateSteeringAngle keys a) <= Rabs a.
Proof.
  intros Hl Hr. rewrite (updateSteeringAngle_none _ _ Hl Hr).
  unfold returnToCenter. pose proof (Rabs_pos a) as Hp.
  destruct (Rgt_dec (Rabs a) 0.01) as [Hgt|Hle].
  - repeat split; intros; try lra.
    rewrite Rabs_mult. assert (Rabs 0.9 = 0.9) by (apply Rabs_right; lra). nra.
  - rewrite Rabs_R0. repeat split; intros; lra.
Qed.

Lemma released_steering_moves_toward_zero_witness :
  0 <= updateSteeringAngle ∅ 0.5 <= 0.5.
Proof.
  apply (released_steering_moves_toward_zero ∅ 0.5);
    [vm_compute; reflexivity | vm_compute; reflexivity | lra].
Defined.

Lemma returnToCenter_odd a : returnToCenter (- a) = - returnToCenter a.
Proof.
  unfold returnToCenter. rewrite Rabs_Ropp.
  destruct (Rgt_dec (Rabs a) 0.01); lra.
Qed.

(** X8: steering is mirror-symmetric as long as the two directions are not
    seen together: if one held-key set passes the left test exactly when the
    other passes the right test and conversely, the update of the negated
    angle under the one is the negation of the update under the other. *)
Theorem steering_update_mirror (keys mirrored : gset string) (a : R) :
  steerLeftHeld mirrored = steerRightHeld keys ->
  steerRightHeld mirrored = steerLeftHeld keys ->
  steerLeftHeld keys && steerRightHeld keys = false ->
  updateSteeringAngle mirrored (- a) = - updateSteeringAngle keys a.
Proof.
  intros Hl Hr Hboth.
  destruct (steerLeftHeld keys) eqn:Lk, (steerRightHeld keys) eqn:Rk;
    try discriminate.
  - rewrite (updateSteeringAngle_left keys a Lk),
      (updateSteeringAngle_right mirrored (- a) Hl Hr).
    unfold Rmin, Rmax. repeat destruct (Rle_dec _ _); lra.
  - rewrite (updateSteeringAngle_right keys a Lk Rk),
      (updateSteeringAngle_left mirrored (- a) Hl).
    unfold Rmin, Rmax. repeat destruct (Rle_dec _ _); lra.
  - rewrite (updateSteeringAngle_none keys a Lk Rk),
      (updateSteeringAngle_none mirrored (- a) Hl Hr).
    apply returnToCenter_odd.
Qed.

Lemma steering_update_mirror_witness :
  updateSteeringAngle {["d"]} (- (0.3)) = - updateSteeringAngle {["a"]} 0.3.
Proof.
  apply (steering_update_mirror {["a"]} {["d"]} 0.3); vm_compute; reflexivity.
Defined.

(** ** More on the load callback *)

Lemma traverse_wheels_filter model : forall (i0 : nat) (ws : list nat),
  snd (traverse i0 model ws)
  = ws ++ List.map (Nat.add i0)
            (List.filter (prefixedAt model) (seq 0 (length model))).
Proof.
  induction model as [|[child rot] rest IH]; intros i0 ws.
  - cbn. now rewrite app_nil_r.
  - cbn [traverse].
    pose proof (collectWheel_wheels i0 child rot ws) as Hc.
    destruct (collectWheel i0 child rot ws) as [child' ws1]. cbn in Hc. subst ws1.
    specialize (IH (S i0) (if startsWith (name child) "wheel_" then ws ++ [i0] else ws)).
    destruct (traverse (S i0) rest _) as [rest' ws2]. cbn [snd] in IH |- *.
    rewrite IH. cbn [length seq List.filter].
    change (prefixedAt ((child, rot) :: rest) 0) with (startsWith (name child) "wheel_").
    rewrite <- seq_shift, filter_map_swap.
    change (List.filter _ (seq 0 (length rest)))
      with (List.filter (prefixedAt rest) (seq 0 (length rest))).
    assert (Hshift : forall l : list nat,
               List.map (Nat.add i0) (List.map S l) = List.map (Nat.add (S i0)) l).
    { intros l. rewrite List.map_map. apply List.map_ext. intros; lia. }
    destruct (startsWith (name child) "wheel_"); cbn [List.map]; rewrite Hshift.
    + rewrite Nat.add_0_r, <- app_assoc. reflexivity.
    + reflexivity.
Qed.

(** X10: after a load the wheel list holds the references of the prefixed
    nodes in traversal order, each once: it is the list of positions
    0, 1, ... of the model filtered by the prefix test. *)
Theorem wheel_list_after_load (model : list (Object3D * Euler)) (st : State) :
  wheelsRef (onLoad model st)
  = List.filter (prefixedAt model) (seq 0 (length model))
  /\ List.NoDup (wheelsRef (onLoad model st)).
Proof.
  assert (H : wheelsRef (onLoad model st)
              = List.filter (prefixedAt model) (seq 0 (length model))).
  { rewrite onLoad_wheelsRef, traverse_wheels_filter. cbn [app].
    rewrite (List.map_ext (Nat.add 0) (fun x => x)) by reflexivity.
    apply List.map_id. }
  split; [exact H|]. rewrite H. apply List.NoDup_filter, seq_NoDup.
Qed.

Lemma traverse_nodes_exact model : forall (i0 : nat) (ws : list nat) (k : nat) child rot,
  model !! k = Some (child, rot) ->
  fst (traverse i0 model ws) !! k = Some (fst (collectWheel 0 child rot [])).
Proof.
  induction model as [|[c0 r0] rest IH]; intros i0 ws k child rot Hk.
  - now rewrite lookup_nil in Hk.
  - cbn [traverse].
    assert (Hc : fst (collectWheel i0 c0 r0 ws) = fst (collectWheel 0 c0 r0 []))
      by (unfold collectWheel; now destruct (startsWith _ _)).
    destruct (collectWheel i0 c0 r0 ws) as [c0' ws1]. cbn [fst] in Hc.
    specialize (IH (S i0) ws1).
    destruct (traverse (S i0) rest ws1) as [rest' ws2]. cbn [fst] in IH |- *.
    destruct k as [|k]; cbn in Hk |- *.
    + injection Hk as -> ->. now rewrite Hc.
    + now apply IH.
Qed.

(** X11: the load captures a wheel's rest rotation exactly when none is
    set: a prefixed node is stored with its name and quaternion and with
    the rest rotation it already carried, or else with its current
    rotation. *)
Theorem load_captures_rest_rotation_once
  (model : list (Object3D * Euler)) (st : State) (i : nat) (child : Object3D)
  (rot : Euler) :
  model !! i = Some (child, rot) ->
  startsWith (name child) "wheel_" = true ->
  nodes (onLoad model st) !! i
  = Some (mkObject3D (name child) (quaternion child)
            (Some (match initialRotation child with
                   | Some captured => captured
                   | None => rot
                   end))).
Proof.
  intros Hi Hp. rewrite onLoad_nodes, (traverse_nodes_exact model 0 [] i child rot Hi).
  unfold collectWheel. rewrite Hp. cbn [fst].
  destruct child as [n q [e|]]; reflexivity.
Qed.

Lemma load_captures_rest_rotation_once_witness :
  nodes (onLoad [(mkObject3D "wheel_front_left" identity (Some restPose),
                  mkEuler 1 2 3 XYZ)] initialState) !! 0%nat
  = Some (mkObject3D "wheel_front_left" identity (Some restPose)).
Proof.
  apply (load_captures_rest_rotation_once
           [(mkObject3D "wheel_front_left" identity (Some restPose),
             mkEuler 1 2 3 XYZ)] initialState 0
           (mkObject3D "wheel_front_left" identity (Some restPose))
           (mkEuler 1 2 3 XYZ)); reflexivity.
Defined.

(** ** Rest rotations through a run *)

(** The wheel loop keeps the name and rest rotation of every node,
    however it ends. *)
Lemma forEachWheel_rest cfg s r wheels : forall (store : list Object3D) (i : nat) w,
  store !! i = Some w ->
  exists w', fst (forEachWheel cfg s r wheels store) !! i = Some w'
    /\ name w' = name w /\ initialRotation w' = initialRotation w.
Proof.
  induction wheels as [|j wheels IH]; intros store i w Hw; cbn.
  - now exists w.
  - destruct (store !! j) as [wheel|] eqn:Hj; [|now exists w].
    destruct (initialRotation wheel) as [initial|] eqn:He; [|now exists w].
    destruct (decide (i = j)) as [->|Hne].
    + assert (w = wheel) by congruence. subst wheel.
      destruct (IH (<[j := copyQuaternion w
                             (wheelQuaternion cfg s r (name w) initial)]> store)
                  j (copyQuaternion w (wheelQuaternion cfg s r (name w) initial)))
        as (w' & Hw' & Hn & Hi).
      { apply list_lookup_insert_eq. eapply lookup_lt_Some; eassumption. }
      exists w'. now repeat split.
    + apply IH. now rewrite list_lookup_insert_ne.
Qed.

Lemma step_rest st ev (i : nat) w :
  isLoaded ev = false ->
  nodes st !! i = Some w ->
  exists w', nodes (step st ev) !! i = Some w'
    /\ name w' = name w /\ initialRotation w' = initialRotation w.
Proof.
  destruct ev as [model|key|key|cfg]; cbn; [discriminate| | |]; intros _ Hw.
  - unfold handleKeyDown. destruct (_ || _); now exists w.
  - now exists w.
  - unfold animate.
    pose proof (forEachWheel_rest cfg
                  (updateSteeringAngle (keysPressed st) (steeringAngleRef st))
                  (wheelRotationRef st + manualRotationSpeed cfg)
                  (wheelsRef st) (nodes st) i w Hw) as H.
    destruct (forEachWheel _ _ _ _ _). exact H.
Qed.

Lemma run_rest evs : forall st (i : nat) w,
  forallb (fun ev => negb (isLoaded ev)) evs = true ->
  nodes st !! i = Some w ->
  exists w', nodes (run evs st) !! i = Some w'
    /\ name w' = name w /\ initialRotation w' = initialRotation w.
Proof.
  induction evs as [|ev evs IH]; intros st i w Hevs Hw; [now exists w|].
  cbn in Hevs. apply andb_prop in Hevs as [Hev Hevs].
  apply negb_true_iff in Hev.
  destruct (step_rest st ev i w Hev Hw) as (w1 & Hw1 & Hn1 & Hi1).
  destruct (IH (step st ev) i w1 Hevs Hw1) as (w' & Hw' & Hn & Hi).
  exists w'. split; [exact Hw'|]. split; congruence.
Qed.

Lemma run_wheelsRef evs : forall st,
  forallb (fun ev => negb (isLoaded ev)) evs = true ->
  wheelsRef (run evs st) = wheelsRef st.
Proof.
  induction evs as [|ev evs IH]; intros st Hevs; [reflexivity|].
  cbn in Hevs. apply andb_prop in Hevs as [Hev Hevs].
  apply negb_true_iff in Hev.
  unfold run. cbn [fold_left]. fold (run evs (step st ev)).
  rewrite IH by assumption. now apply (step_other st ev 0).
Qed.

(** X12: key events and frames never rewrite what the load set up: through
    any run without a further load every node keeps its name and its rest
    rotation, and the wheel list stays the same. *)
Theorem rest_rotation_survives_frames
  (evs : list Event) (st : State) (i : nat) (w : Object3D) :
  forallb (fun ev => negb (isLoaded ev)) evs = true ->
  nodes st !! i = Some w ->
  wheelsRef (run evs st) = wheelsRef st
  /\ exists w', nodes (run evs st) !! i = Some w'
       /\ name w' = name w /\ initialRotation w' = initialRotation w.
Proof.
  intros Hevs Hw. split; [now apply run_wheelsRef | now apply run_rest].
Qed.

Lemma rest_rotation_survives_frames_witness :
  wheelsRef (run [KeyDown "a"; Frame defaultConfig; Frame defaultConfig]
               (onLoad exampleModel initialState))
  = wheelsRef (onLoad exampleModel initialState)
  /\ exists w',
       nodes (run [KeyDown "a"; Frame defaultConfig; Frame defaultConfig]
                (onLoad exampleModel initialState)) !! 1%nat = Some w'
       /\ name w' = "wheel_front_left" /\ initialRotation w' = Some restPose.
Proof.
  apply (rest_rotation_survives_frames
           [KeyDown "a"; Frame defaultConfig; Frame defaultConfig]
           (onLoad exampleModel initialState) 1
           (mkObject3D "wheel_front_left" identity (Some restPose)));
    reflexivity.
Defined.

(** X13: the orientation of a wheel carries no history.  After a load and
    any key events and frames, the frame that follows gives a prefixed node
    the quaternion computed from the rest rotation the load captured and the
    two accumulators as that frame leaves them. *)
Theorem orientation_carries_no_history
  (model : list (Object3D * Euler)) (st : State) (evs : list Event) (cfg : Config)
  (i : nat) (child : Object3D) (rot : Euler) :
  model !! i = Some (child, rot) ->
  startsWith (name child) "wheel_" = true ->
  forallb (fun ev => negb (isLoaded ev)) evs = true ->
  exists w',
    nodes (run (Loaded model :: evs ++ [Frame cfg]) st) !! i = Some w'
    /\ quaternion w'
       = wheelQuaternion cfg
           (steeringAngleRef (run (Loaded model :: evs ++ [Frame cfg]) st))
           (wheelRotationRef (run (Loaded model :: evs ++ [Frame cfg]) st))
           (name child)
           (match initialRotation child with
            | Some captured => captured
            | None => rot
            end).
Proof.
  intros Hi Hp Hevs.
  assert (Hrun : run (Loaded model :: evs ++ [Frame cfg]) st
                 = fst (animate cfg (run evs (onLoad model st)))).
  { unfold run. cbn [fold_left step]. now rewrite fold_left_app. }
  rewrite Hrun. clear Hrun.
  set (rest := match initialRotation child with Some c => c | None => rot end).
  assert (Hnode : nodes (onLoad model st) !! i
                  = Some (mkObject3D (name child) (quaternion child) (Some rest))).
  { rewrite onLoad_nodes, (traverse_nodes_exact model 0 [] i child rot Hi).
    unfold collectWheel. rewrite Hp. cbn [fst]. subst rest.
    destruct child as [n q [e|]]; reflexivity. }
  destruct (run_rest evs _ i _ Hevs Hnode) as (w1 & Hw1 & Hn1 & Hr1).
  cbn in Hn1, Hr1.
  assert (Hwf : wheelsCaptured (run evs (onLoad model st)))
    by apply run_wheelsCaptured, onLoad_wheelsCaptured.
  assert (Hin : i ∈ wheelsRef (run evs (onLoad model st))).
  { rewrite run_wheelsRef by assumption.
    rewrite onLoad_wheelsRef. apply traverse_wheels. right.
    now exists i, child, rot. }
  destruct (animate_wheels cfg _ Hwf) as [_ Hspec].
  destruct (Hspec i w1 Hw1) as (w' & Hw' & _ & _ & Hq).
  exists w'. split; [exact Hw'|]. rewrite (Hq Hin rest Hr1). now rewrite Hn1.
Qed.

Lemma orientation_carries_no_history_witness :
  exists w',
    nodes (run (Loaded exampleModel
                  :: [KeyDown "a"; Frame defaultConfig; KeyUp "a"]
                  ++ [Frame defaultConfig]) initialState) !! 2%nat = Some w'.
Proof.
  destruct (orientation_carries_no_history exampleModel initialState
              [KeyDown "a"; Frame defaultConfig; KeyUp "a"] defaultConfig 2
              (mkObject3D "wheel_front_right" identity None) restPose)
    as (w' & Hw' & _); try reflexivity.
  now exists w'.
Defined.

(** X14: no frame ever throws.  In every state the component reaches from
    its initial refs, by any loads, key events and frames, each collected
    wheel is a node with a captured rest rotation, and a frame ends
    normally. *)
Theorem frames_never_throw (evs : list Event) (cfg : Config) :
  wheelsCaptured (run evs initialState)
  /\ snd (animate cfg (run evs initialState)) = Normal.
Proof.
  assert (H : wheelsCaptured (run evs initialState))
    by (apply run_wheelsCaptured, Forall_nil_2).
  split; [exact H | now apply animate_wheels].
Qed.

(** ** Centred steering *)

Lemma axisAngle_0 axis : setFromAxisAngle (axisVec axis) 0 = identity.
Proof.
  unfold setFromAxisAngle, identity. replace (0 / 2) with 0 by lra.
  rewrite sin_0, cos_0. destruct axis; cbn; f_equal; ring.
Qed.

Lemma multiply_identity_r q : multiply q identity = q.
Proof. destruct q as [x y z w]. unfold multiply, identity. cbn. f_equal; ring. Qed.

(** X17: with the steering centred (steering angle plus manual offset 0) a
    wheel of any name, front or not, left or right, gets [rest * roll]. *)
Theorem centred_steering_is_no_rotation
  (cfg : Config) (steering roll : R) (n : string) (initial : Euler) :
  steering + manualSteeringAngle cfg = 0 ->
  wheelQuaternion cfg steering roll n initial
  = multiply (setFromEuler initial) (rotationQ cfg roll).
Proof.
  intros H0. unfold wheelQuaternion, steeredQ, steeringQ, finalSteeringAngle.
  rewrite H0. destruct (isFrontWheel n); [|reflexivity].
  replace (if isRightWheel n then - 0 else 0) with 0
    by (destruct (isRightWheel n); lra).
  now rewrite axisAngle_0, multiply_identity_r.
Qed.

Lemma centred_steering_is_no_rotation_witness :
  wheelQuaternion defaultConfig 0 1 "wheel_front_right" restPose
  = multiply (setFromEuler restPose) (rotationQ defaultConfig 1).
Proof.
  apply (centred_steering_is_no_rotation defaultConfig 0 1 "wheel_front_right" restPose).
  cbn. lra.
Defined.
